(** * asyncio_extras.threads: running code in worker threads

    A shallow embedding of [src/asyncio_extras/threads.py]:

    - the dual-mode decorator ([_ThreadSwitcher.__call__], its inner
      [wrapper], [threadpool]) and [call_in_executor], over an explicit store
      holding the executors' work queues, the futures and a trace of the
      calls made to user callables;
    - the [async with threadpool():] protocol ([_ThreadSwitcher.__await__],
      its inner [exec_when_ready], [__aenter__], [__aexit__]) as an
      interleaving of the event loop thread and one worker thread.

    The event loop, its executors and [functools.partial] belong to the
    Python standard library; the parts of them the module calls are modelled
    here after their documented behaviour (PEP 3148 / PEP 3156). *)

From stdpp Require Import base option list gmap strings.
From Stdlib Require Import ZArith Lia.

Set Default Proof Using "Type".

(** ** Python values, exceptions and call results *)

(** The exceptions that can travel through this module. *)
Inductive exn : Type :=
  | RuntimeError (msg : string)
  | AssertionError (msg : string)
  | ZeroDivisionError (msg : string)
  | AttributeError (msg : string)
  | OtherError (name msg : string).

(** A statement or call either returns a value or raises. *)
Inductive outcome (A : Type) : Type :=
  | Returned (a : A)
  | Raised (e : exn).
Arguments Returned {A} a.
Arguments Raised {A} e.

Definition outcome_map {A B : Type} (f : A → B) (o : outcome A) : outcome B :=
  match o with
  | Returned a => Returned (f a)
  | Raised e => Raised e
  end.

Definition executor_ref := nat.
Definition future_ref := nat.

(** The values callables receive and return. [VExecutor] is a reference to
    an executor object of the store. *)
Inductive value : Type :=
  | VNone
  | VInt (z : Z)
  | VStr (s : string)
  | VExecutor (r : executor_ref).

(** A user callable: what a call computes from the positional and the keyword
    arguments it receives, and what [inspect.iscoroutinefunction] answers
    for it. *)
Record callable : Type := Callable {
  c_name : string;
  c_body : list value → gmap string value → outcome value;
  c_iscoroutinefunction : bool
}.

(** A [functools.partial] object: the callable with the positional and the
    keyword arguments frozen into it. *)
Record partial : Type := Partial {
  p_func : callable;
  p_args : list value;
  p_keywords : gmap string value
}.

(** Calling a partial object: the stored positional arguments come first,
    then the new ones; the new keywords override the stored ones. *)
Definition partial_call (p : partial) (fargs : list value)
    (fkeywords : gmap string value) : outcome value :=
  c_body (p_func p) (p_args p ++ fargs) (fkeywords ∪ p_keywords p).

(** The arguments the target callable receives when the partial is called. *)
Definition partial_argv (p : partial) (fargs : list value)
    (fkeywords : gmap string value) : list value * gmap string value :=
  (p_args p ++ fargs, fkeywords ∪ p_keywords p).

(** ** The store: executors, futures, and the trace of calls *)

(** A PEP 3148 executor: once shut down it takes no more work; its queue
    holds the submitted callbacks, each with the future to resolve. *)
Record Executor : Type := MkExecutor {
  ex_shutdown : bool;
  ex_queue : list (future_ref * partial)
}.

Definition fresh_executor : Executor := MkExecutor false [].

(** A future is pending, or holds a result or an exception, for good. *)
Inductive future_state : Type :=
  | Pending
  | Fulfilled (v : value)
  | Failed (e : exn).

(** One invocation of a user callable: the thread it ran on and what it
    was given. *)
Record call_event : Type := CallEvent {
  ce_thread : nat;
  ce_func : string;
  ce_args : list value;
  ce_kwargs : gmap string value
}.

Record World : Type := MkWorld {
  w_pools : gmap executor_ref Executor;
  w_futures : list future_state;
  w_calls : list call_event
}.

(** An executor nobody has touched yet is live and idle. *)
Definition pool (w : World) (r : executor_ref) : Executor :=
  default fresh_executor (w_pools w !! r).

(** An event loop, as far as this module sees it: whether it is closed, and
    the default executor [run_in_executor(None, ...)] resolves to. *)
Record Loop : Type := MkLoop {
  loop_closed : bool;
  loop_default_executor : executor_ref
}.

(** A thread and the event loop set for it, if any. *)
Record Thread : Type := MkThread {
  thread_id : nat;
  thread_loop : option Loop
}.

(** [asyncio.get_event_loop()]: the loop of the calling thread; in a thread
    that has none (a worker thread) it raises [RuntimeError]. *)
Definition get_event_loop (t : Thread) : outcome Loop :=
  match thread_loop t with
  | Some l => Returned l
  | None => Raised (RuntimeError "There is no current event loop in thread")
  end.

(** [Executor.submit(fn)]: raises once the executor has been shut down,
    otherwise queues the work item and hands back a new pending future. *)
Definition Executor_submit (r : executor_ref) (cb : partial) (w : World)
    : World * outcome future_ref :=
  let ex := pool w r in
  if ex_shutdown ex then
    (w, Raised (RuntimeError "cannot schedule new futures after shutdown"))
  else
    let fut := length (w_futures w) in
    (MkWorld (<[r := MkExecutor false (ex_queue ex ++ [(fut, cb)])]> (w_pools w))
             (w_futures w ++ [Pending])
             (w_calls w),
     Returned fut).

(** The executor a call of [run_in_executor] works with: [None] selects
    the loop's default executor; a value that is no executor has no
    [submit] to call. *)
Definition executor_of (loop : Loop) (executor : value) : option executor_ref :=
  match executor with
  | VNone => Some (loop_default_executor loop)
  | VExecutor r => Some r
  | _ => None
  end.

(** [loop.run_in_executor(executor, func)]: a closed loop refuses;
    otherwise the callback is submitted and the executor's answer, future
    or exception, is the answer of the call. *)
Definition run_in_executor (loop : Loop) (executor : value) (cb : partial)
    (w : World) : World * outcome future_ref :=
  if loop_closed loop then (w, Raised (RuntimeError "Event loop is closed"))
  else
    match executor_of loop executor with
    | Some r => Executor_submit r cb w
    | None => (w, Raised (AttributeError "submit"))
    end.

(** A worker thread of executor [r] takes the oldest work item, calls it
    with no further arguments and resolves its future with what happened. *)
Definition resolve (o : outcome value) : future_state :=
  match o with
  | Returned v => Fulfilled v
  | Raised e => Failed e
  end.

Definition worker_run (r : executor_ref) (tid : nat) (w : World) : option World :=
  let ex := pool w r in
  match ex_queue ex with
  | [] => None
  | (fut, cb) :: rest =>
      let '(args, kwargs) := partial_argv cb [] ∅ in
      Some (MkWorld (<[r := MkExecutor (ex_shutdown ex) rest]> (w_pools w))
                    (<[fut := resolve (partial_call cb [] ∅)]> (w_futures w))
                    (w_calls w ++ [CallEvent tid (c_name (p_func cb)) args kwargs]))
  end.

(** Waiting on a future: its result or its exception once it is resolved. *)
Definition future_result (w : World) (fut : future_ref) : option (outcome value) :=
  match w_futures w !! fut with
  | Some (Fulfilled v) => Some (Returned v)
  | Some (Failed e) => Some (Raised e)
  | _ => None
  end.

(** The workers of executor [r] take [n] work items, oldest first. *)
Fixpoint drain (r : executor_ref) (tid : nat) (n : nat) (w : World) : option World :=
  match n with
  | O => Some w
  | S n' =>
      match worker_run r tid w with
      | Some w' => drain r tid n' w'
      | None => None
      end
  end.

(** ** [_ThreadSwitcher]: the decorator side *)

(** [__slots__ = 'executor', 'exited', ...]. *)
Record _ThreadSwitcher : Type := MkThreadSwitcher {
  executor : value;
  exited : bool
}.

(** [__init__(self, executor)] (lines 15-17). *)
Definition __init__ (executor : value) : _ThreadSwitcher :=
  MkThreadSwitcher executor false.

(** What a wrapped function hands back: the callable's own result, or the
    future returned by [run_in_executor]. *)
Inductive wrapper_result : Type :=
  | Direct (v : value)
  | Deferred (fut : future_ref).

(** The inner [wrapper], taking any positional and keyword arguments
    (lines 53-61). Only [get_event_loop()] sits inside the [try]. *)
Definition wrapper (self : _ThreadSwitcher) (func : callable) (t : Thread)
    (args : list value) (kwargs : gmap string value) (w : World)
    : World * outcome wrapper_result :=
  match get_event_loop t with
  | Raised (RuntimeError _) =>
      (* Event loop not available -- we're in a worker thread *)
      (MkWorld (w_pools w) (w_futures w)
               (w_calls w ++ [CallEvent (thread_id t) (c_name func) args kwargs]),
       outcome_map Direct (c_body func args kwargs))
  | Raised e => (w, Raised e)
  | Returned loop =>
      let callback := Partial func args kwargs in
      let '(w', r) := run_in_executor loop (executor self) callback w in
      (w', outcome_map Deferred r)
  end.

Definition wrapped : Type :=
  Thread → list value → gmap string value → World → World * outcome wrapper_result.

(** [__call__(self, func)] (lines 51-65): the [assert] of line 63 runs
    before the wrapper is handed out. *)
Definition __call__ (self : _ThreadSwitcher) (func : callable) : outcome wrapped :=
  if c_iscoroutinefunction func then
    Raised (AssertionError "Cannot wrap coroutine functions to be run in an executor")
  else Returned (wrapper self func).

(** [threadpool(arg)] (lines 102-107): [callable(arg)] separates the use as
    a bare decorator from the use with an executor or with nothing. *)
Inductive threadpool_result : Type :=
  | Decorated (f : wrapped)
  | Switcher (sw : _ThreadSwitcher).

Definition threadpool (arg : callable + value) : outcome threadpool_result :=
  match arg with
  | inl func => outcome_map Decorated (__call__ (__init__ VNone) func)
  | inr ex => Returned (Switcher (__init__ ex))
  end.

(** The body of [call_in_executor] once its parameters are bound
    (lines 129-130). *)
Definition call_in_executor_body (func : callable) (args : list value)
    (executor : value) (kwargs : gmap string value) (t : Thread) (w : World)
    : World * outcome future_ref :=
  let callback := Partial func args kwargs in
  match get_event_loop t with
  | Raised e => (w, Raised e)
  | Returned loop => run_in_executor loop executor callback w
  end.

(** Binding a call [call_in_executor(func, a1, ..., k1=v1, ...)] against
    the signature of line 110: [executor] is a keyword-only parameter with
    default [None]; the last parameter collects the keywords that match no
    other parameter. *)
Definition call_in_executor (func : callable) (args : list value)
    (keywords : gmap string value) (t : Thread) (w : World)
    : World * outcome future_ref :=
  call_in_executor_body func args
    (default VNone (keywords !! "executor"))
    (delete "executor" keywords) t w.

(** ** [_ThreadSwitcher]: the [async with] side

    [async with threadpool(): body] runs, in the coroutine that contains it,
    [__aenter__] and awaits its result, then the body, then [__aexit__] and
    awaits its result. Both results are the switcher itself, so both awaits
    run the generator [__await__].  Two threads take part: the event loop
    thread, whose task drives the coroutine, and the worker thread that runs
    [exec_when_ready]. *)

(** What reaches the driver of the coroutine at a [yield]: the future of
    line 44, nothing (line 33), or whatever the block body awaits. *)
Inductive yielded : Type :=
  | YFuture
  | YNone
  | YOther.

(** The callbacks in the loop's ready queue: [event.set], the delivery of
    the worker's result to the loop thread, the task's wakeup and step, and
    callbacks that belong to other tasks. *)
Inductive callback : Type :=
  | CbEventSet
  | CbFutureDone (o : outcome value)
  | CbWakeup
  | CbStep (exc : option exn)
  | CbOther.

(** Program points of [__await__], by source line. *)
Inductive await_pc : Type :=
  | A_test          (* line 31 *)
  | A_yield         (* line 33 *)
  | A_find_coro     (* lines 36-38 *)
  | A_event         (* line 39 *)
  | A_get_loop      (* line 40 *)
  | A_submit        (* line 41 *)
  | A_mark          (* line 42 *)
  | A_call_soon     (* line 43 *)
  | A_yield_future  (* line 44 *)
  | A_end.          (* resumed after a yield: the generator finishes *)

Inductive gen_next : Type :=
  | GNext (a : await_pc)
  | GYield (y : yielded) (resume : await_pc)
  | GReturn
  | GRaise (e : exn).

(** Which of the two awaits of the [async with] statement is running. *)
Inductive scope_end : Type :=
  | Entering
  | Leaving.

(** Program points of the coroutine around the block. *)
Inductive coro_pc : Type :=
  | C_aenter                                  (* line 21 *)
  | C_await (k : scope_end) (a : await_pc)
  | C_body
  | C_aexit                                   (* line 48 *)
  | C_after
  | C_thrown (e : exn).

Inductive coro_next : Type :=
  | CNext (c : coro_pc)
  | CYield (y : yielded) (resume : coro_pc).

(** The objects the two threads share. The three counters are not in
    the program: they record how often an [Event] was created, how often
    its flag went from clear to set, and how often work was submitted. *)
Record Heap : Type := MkHeap {
  h_exited : bool;                   (* self.exited *)
  h_shutdown : bool;                 (* self.executor has been shut down *)
  h_queued : nat;                    (* submitted work not yet picked up *)
  h_event : option bool;             (* the Event of line 39 and its flag *)
  h_future : option future_state;    (* the future of line 41 *)
  h_blocking : bool;                 (* future._asyncio_future_blocking *)
  h_waiter : bool;                   (* the task's wakeup waits on the future *)
  h_ready : list callback;           (* the loop's ready queue *)
  h_frame : coro_pc;                 (* where the suspended coroutine resumes *)
  n_events : nat;
  n_sets : nat;
  n_submitted : nat
}.

Definition set_exited (b : bool) (h : Heap) : Heap :=
  MkHeap b (h_shutdown h) (h_queued h) (h_event h) (h_future h) (h_blocking h)
    (h_waiter h) (h_ready h) (h_frame h) (n_events h) (n_sets h) (n_submitted h).

Definition set_frame (c : coro_pc) (h : Heap) : Heap :=
  MkHeap (h_exited h) (h_shutdown h) (h_queued h) (h_event h) (h_future h)
    (h_blocking h) (h_waiter h) (h_ready h) c (n_events h) (n_sets h)
    (n_submitted h).

(** [event = Event()]. *)
Definition new_event (h : Heap) : Heap :=
  MkHeap (h_exited h) (h_shutdown h) (h_queued h) (Some false) (h_future h)
    (h_blocking h) (h_waiter h) (h_ready h) (h_frame h) (S (n_events h))
    (n_sets h) (n_submitted h).

(** [event.set()]. *)
Definition event_set (h : Heap) : Heap :=
  match h_event h with
  | Some false =>
      MkHeap (h_exited h) (h_shutdown h) (h_queued h) (Some true) (h_future h)
        (h_blocking h) (h_waiter h) (h_ready h) (h_frame h) (n_events h)
        (S (n_sets h)) (n_submitted h)
  | _ => h
  end.

(** The executor accepts [exec_when_ready] and hands back a pending future. *)
Definition submit_exec_when_ready (h : Heap) : Heap :=
  MkHeap (h_exited h) (h_shutdown h) (S (h_queued h)) (h_event h) (Some Pending)
    false (h_waiter h) (h_ready h) (h_frame h) (n_events h) (n_sets h)
    (S (n_submitted h)).

Definition take_work (h : Heap) : Heap :=
  MkHeap (h_exited h) (h_shutdown h) (pred (h_queued h)) (h_event h) (h_future h)
    (h_blocking h) (h_waiter h) (h_ready h) (h_frame h) (n_events h) (n_sets h)
    (n_submitted h).

Definition set_blocking (b : bool) (h : Heap) : Heap :=
  MkHeap (h_exited h) (h_shutdown h) (h_queued h) (h_event h) (h_future h) b
    (h_waiter h) (h_ready h) (h_frame h) (n_events h) (n_sets h) (n_submitted h).

Definition set_waiter (b : bool) (h : Heap) : Heap :=
  MkHeap (h_exited h) (h_shutdown h) (h_queued h) (h_event h) (h_future h)
    (h_blocking h) b (h_ready h) (h_frame h) (n_events h) (n_sets h)
    (n_submitted h).

Definition set_future (f : future_state) (h : Heap) : Heap :=
  MkHeap (h_exited h) (h_shutdown h) (h_queued h) (h_event h) (Some f)
    (h_blocking h) (h_waiter h) (h_ready h) (h_frame h) (n_events h) (n_sets h)
    (n_submitted h).

Definition set_ready (q : list callback) (h : Heap) : Heap :=
  MkHeap (h_exited h) (h_shutdown h) (h_queued h) (h_event h) (h_future h)
    (h_blocking h) (h_waiter h) q (h_frame h) (n_events h) (n_sets h)
    (n_submitted h).

(** [loop.call_soon(cb)], and [call_soon_threadsafe] from another thread. *)
Definition call_soon (cb : callback) (h : Heap) : Heap :=
  set_ready (h_ready h ++ [cb]) h.

Definition dquote : string :=
  String (Ascii.Ascii false true false false false true false false) EmptyString.

(** The message of line 29. *)
Definition await_in_worker_msg : string :=
  "attempted to " +:+ dquote +:+ "await" +:+ dquote +:+ " in a worker thread".

(** [__await__] (lines 31-44), one statement at a time, run by thread [t]. *)
Definition __await__ (t : Thread) (a : await_pc) (h : Heap) : Heap * gen_next :=
  match a with
  | A_test => (h, GNext (if h_exited h then A_yield else A_find_coro))
  | A_yield => (h, GYield YNone A_end)
  | A_find_coro => (h, GNext A_event)
  | A_event => (new_event h, GNext A_get_loop)
  | A_get_loop =>
      match get_event_loop t with
      | Returned _ => (h, GNext A_submit)
      | Raised e => (h, GRaise e)
      end
  | A_submit =>
      if h_shutdown h then
        (h, GRaise (RuntimeError "cannot schedule new futures after shutdown"))
      else (submit_exec_when_ready h, GNext A_mark)
  | A_mark =>
      match h_future h with
      | Some Pending => (set_blocking true h, GNext A_call_soon)
      | _ => (h, GRaise (RuntimeError "generator raised StopIteration"))
      end
  | A_call_soon => (call_soon CbEventSet h, GNext A_yield_future)
  | A_yield_future => (h, GYield YFuture A_end)
  | A_end => (h, GReturn)
  end.

(** Driving the generator from point [a] to its next yield, return or
    raise, as [next] and [send] do. *)
Fixpoint gen_run (fuel : nat) (t : Thread) (a : await_pc) (h : Heap)
    : option (Heap * gen_next) :=
  match fuel with
  | O => None
  | S fuel' =>
      match __await__ t a h with
      | (h', GNext a') => gen_run fuel' t a' h'
      | r => Some r
      end
  end.

Definition gen_send (t : Thread) (a : await_pc) (h : Heap) : option (Heap * gen_next) :=
  gen_run 9 t a h.

(** How many statements [__await__] can still run from a point before it
    yields, returns or raises. *)
Definition await_rank (a : await_pc) : nat :=
  match a with
  | A_test => 8
  | A_find_coro => 7
  | A_event => 6
  | A_get_loop => 5
  | A_submit => 4
  | A_mark => 3
  | A_call_soon => 2
  | A_yield | A_yield_future | A_end => 1
  end.

(** [__aenter__] (lines 19-21) changes nothing and returns [self]. *)
Definition __aenter__ (h : Heap) : Heap := h.

(** [__aexit__] (lines 46-49) sets [self.exited] and returns [self]. *)
Definition __aexit__ (h : Heap) : Heap := set_exited true h.

(** The block body is not fixed: it runs to its end ([Go]), or it awaits
    something that suspends the coroutine ([Await]). Everywhere else there
    is one way on. *)
Inductive move : Type :=
  | Go
  | Await.

(** One step of the coroutine, whichever thread [t] is running it. *)
Definition coro_step (t : Thread) (m : move) (c : coro_pc) (h : Heap)
    : option (Heap * coro_next) :=
  match c, m with
  | C_aenter, Go => Some (__aenter__ h, CNext (C_await Entering A_test))
  | C_await k a, Go =>
      let '(h', g) := __await__ t a h in
      Some (h', match g with
                | GNext a' => CNext (C_await k a')
                | GYield y a' => CYield y (C_await k a')
                | GReturn => CNext (match k with
                                    | Entering => C_body
                                    | Leaving => C_after
                                    end)
                | GRaise e => CNext (C_thrown e)
                end)
  | C_body, Go => Some (h, CNext C_aexit)
  | C_body, Await => Some (h, CYield YOther C_body)
  | C_aexit, Go => Some (__aexit__ h, CNext (C_await Leaving A_test))
  | _, _ => None
  end.

(** The event loop thread: inside a step of the task (running the
    coroutine, or handling what it yielded), or between callbacks. *)
Inductive loop_pc : Type :=
  | S_coro (c : coro_pc)
  | S_task_step (y : yielded)
  | S_idle.

(** The worker thread, by line of [exec_when_ready]. *)
Inductive worker_pc : Type :=
  | W_idle
  | W_wait                          (* line 25 *)
  | W_send                          (* line 26 *)
  | W_coro (c : coro_pc)            (* inside coro.send *)
  | W_check                         (* line 28 *)
  | W_finished (o : outcome value)  (* returned, or raised at line 29 *)
  | W_exit.

Record state : Type := MkState {
  st_heap : Heap;
  st_loop : loop_pc;
  st_worker : worker_pc
}.

Definition loop_thread : Thread := MkThread 0 (Some (MkLoop false 0)).
Definition worker_thread : Thread := MkThread 1 None.

(** The task's handling of what [coro.send] returned to it. *)
Definition task_step (y : yielded) (h : Heap) : Heap :=
  match y with
  | YFuture =>
      if h_blocking h then
        let h1 := set_blocking false h in
        match h_future h1 with
        | Some Pending => set_waiter true h1
        | _ => call_soon CbWakeup h1
        end
      else
        call_soon (CbStep (Some (RuntimeError "yield was used instead of yield from"))) h
  | YNone => call_soon (CbStep None) h
  | YOther => h
  end.

(** The loop runs the callback at the head of its ready queue. *)
Definition run_callback (cb : callback) (h : Heap) : Heap * loop_pc :=
  match cb with
  | CbEventSet => (event_set h, S_idle)
  | CbFutureDone o =>
      let h1 := set_future (resolve o) h in
      (if h_waiter h1 then call_soon CbWakeup (set_waiter false h1) else h1, S_idle)
  | CbWakeup =>
      match h_future h with
      | Some (Failed e) => (h, S_coro (C_thrown e))
      | _ => (h, S_coro (h_frame h))
      end
  | CbStep None => (h, S_coro (h_frame h))
  | CbStep (Some e) => (h, S_coro (C_thrown e))
  | CbOther => (h, S_idle)
  end.

Definition loop_step (m : move) (s : state) : option state :=
  let h := st_heap s in
  match st_loop s with
  | S_coro c =>
      match coro_step loop_thread m c h with
      | Some (h', CNext c') => Some (MkState h' (S_coro c') (st_worker s))
      | Some (h', CYield y c') =>
          Some (MkState (set_frame c' h') (S_task_step y) (st_worker s))
      | None => None
      end
  | S_task_step y =>
      match m with
      | Go => Some (MkState (task_step y h) S_idle (st_worker s))
      | Await => None
      end
  | S_idle =>
      match m, h_ready h with
      | Go, cb :: q =>
          let '(h', pc) := run_callback cb (set_ready q h) in
          Some (MkState h' pc (st_worker s))
      | _, _ => None
      end
  end.

(** [exec_when_ready] (lines 24-29), from one of its lines to the next:
    [event.wait()] does not return while the flag is clear; [coro.send]
    enters the coroutine where it is suspended; when [coro.send] has
    returned, the function raises unless [self.exited] is set. *)
Definition exec_when_ready (pc : worker_pc) (h : Heap) : option worker_pc :=
  match pc with
  | W_wait =>
      match h_event h with
      | Some true => Some W_send
      | _ => None
      end
  | W_send => Some (W_coro (h_frame h))
  | W_check =>
      if negb (h_exited h) then
        Some (W_finished (Raised (RuntimeError await_in_worker_msg)))
      else Some (W_finished (Returned VNone))
  | _ => None
  end.

(** The worker thread: it takes the work item from the pool, runs
    [exec_when_ready] and, inside [coro.send], the coroutine; an exception
    that travels up the coroutine leaves [coro.send] and the function with
    it; at the end the outcome is handed to the loop. *)
Definition worker_step (m : move) (s : state) : option state :=
  let h := st_heap s in
  match st_worker s, m with
  | W_idle, Go =>
      match h_queued h with
      | O => None
      | S _ => Some (MkState (take_work h) (st_loop s) W_wait)
      end
  | W_coro (C_thrown e), Go => Some (MkState h (st_loop s) (W_finished (Raised e)))
  | W_coro c, _ =>
      match coro_step worker_thread m c h with
      | Some (h', CNext c') => Some (MkState h' (st_loop s) (W_coro c'))
      | Some (h', CYield y c') => Some (MkState (set_frame c' h') (st_loop s) W_check)
      | None => None
      end
  | W_finished o, Go => Some (MkState (call_soon (CbFutureDone o) h) (st_loop s) W_exit)
  | W_exit, _ => None
  | pc, Go =>
      match exec_when_ready pc h with
      | Some pc' => Some (MkState h (st_loop s) pc')
      | None => None
      end
  | _, Await => None
  end.

(** Who moves next is not fixed either; [Elsewhere] is another task or
    thread scheduling a callback of its own on the loop. *)
Inductive action : Type :=
  | OnLoop (m : move)
  | OnWorker (m : move)
  | Elsewhere.

Definition step (a : action) (s : state) : option state :=
  match a with
  | OnLoop m => loop_step m s
  | OnWorker m => worker_step m s
  | Elsewhere =>
      Some (MkState (call_soon CbOther (st_heap s)) (st_loop s) (st_worker s))
  end.

Fixpoint exec (tr : list action) (s : state) : option state :=
  match tr with
  | [] => Some s
  | a :: tr' =>
      match step a s with
      | Some s' => exec tr' s'
      | None => None
      end
  end.

(** The task reaches the [async with] on the loop thread; the switcher is
    new ([exited] is false), [k] callbacks of other tasks are waiting. *)
Definition init (shutdown : bool) (k : nat) : state :=
  MkState (MkHeap false shutdown 0 None None false false (replicate k CbOther)
                  C_aenter 0 0 0)
          (S_coro C_aenter) W_idle.

(** Whether a thread is inside the coroutine's code. *)
Definition loop_in_coro (s : state) : bool :=
  match st_loop s with
  | S_coro _ => true
  | _ => false
  end.

Definition worker_in_coro (s : state) : bool :=
  match st_worker s with
  | W_coro _ => true
  | _ => false
  end.

(** ** The states a handoff goes through *)

(** The callbacks of the ready queue that belong to this handoff. *)
Fixpoint pend (q : list callback) : list callback :=
  match q with
  | [] => []
  | CbOther :: q' => pend q'
  | cb :: q' => cb :: pend q'
  end.

(** What [exec_when_ready] ends with, from the value of [self.exited]. *)
Definition verdict (ex : bool) : outcome value :=
  if negb ex then Raised (RuntimeError await_in_worker_msg) else Returned VNone.

(** The work item is queued, or the worker sits in [event.wait()]. *)
Definition not_started (w : worker_pc) (q : nat) : Prop :=
  (w = W_idle ∧ q = 1) ∨ (w = W_wait ∧ q = 0).

(** Where the coroutine is left when [coro.send] returns to the worker:
    at line 33 after [__aexit__], or inside the block at an await. *)
Definition left_at (fr : coro_pc) (ex : bool) : Prop :=
  (fr = C_await Leaving A_end ∧ ex = true) ∨ (fr = C_body ∧ ex = false).

Inductive phase : state → Prop :=
  | Ph_start sd rd fr c :
      pend rd = [] →
      c = C_aenter ∨ c = C_await Entering A_test ∨
        c = C_await Entering A_find_coro ∨ c = C_await Entering A_event →
      phase (MkState (MkHeap false sd 0 None None false false rd fr 0 0 0)
                     (S_coro c) W_idle)
  | Ph_event sd rd fr c :
      pend rd = [] →
      c = C_await Entering A_get_loop ∨ c = C_await Entering A_submit →
      phase (MkState (MkHeap false sd 0 (Some false) None false false rd fr 1 0 0)
                     (S_coro c) W_idle)
  | Ph_refused sd rd fr e :
      pend rd = [] →
      phase (MkState (MkHeap false sd 0 (Some false) None false false rd fr 1 0 0)
                     (S_coro (C_thrown e)) W_idle)
  | Ph_submitted sd rd fr w q a b :
      not_started w q →
      pend rd = [] →
      (a = A_mark ∧ b = false) ∨ (a = A_call_soon ∧ b = true) →
      phase (MkState (MkHeap false sd q (Some false) (Some Pending) b false rd fr 1 0 1)
                     (S_coro (C_await Entering a)) w)
  | Ph_scheduled sd rd fr w q l :
      not_started w q →
      pend rd = [CbEventSet] →
      l = S_coro (C_await Entering A_yield_future) ∨
        (l = S_task_step YFuture ∧ fr = C_await Entering A_end) →
      phase (MkState (MkHeap false sd q (Some false) (Some Pending) true false rd fr 1 0 1)
                     l w)
  | Ph_parked sd rd w q :
      not_started w q →
      pend rd = [CbEventSet] →
      phase (MkState (MkHeap false sd q (Some false) (Some Pending) false true rd
                             (C_await Entering A_end) 1 0 1)
                     S_idle w)
  | Ph_released sd rd w q :
      not_started w q ∨ (w = W_send ∧ q = 0) →
      pend rd = [] →
      phase (MkState (MkHeap false sd q (Some true) (Some Pending) false true rd
                             (C_await Entering A_end) 1 1 1)
                     S_idle w)
  | Ph_on_worker sd rd c ex :
      pend rd = [] →
      (ex = false ∧ (c = C_await Entering A_end ∨ c = C_body ∨ c = C_aexit)) ∨
        (ex = true ∧ (c = C_await Leaving A_test ∨ c = C_await Leaving A_yield)) →
      phase (MkState (MkHeap ex sd 0 (Some true) (Some Pending) false true rd
                             (C_await Entering A_end) 1 1 1)
                     S_idle (W_coro c))
  | Ph_returned sd rd fr ex w :
      pend rd = [] →
      left_at fr ex →
      w = W_check ∨ w = W_finished (verdict ex) →
      phase (MkState (MkHeap ex sd 0 (Some true) (Some Pending) false true rd fr 1 1 1)
                     S_idle w)
  | Ph_posted sd rd fr ex :
      pend rd = [CbFutureDone (verdict ex)] →
      left_at fr ex →
      phase (MkState (MkHeap ex sd 0 (Some true) (Some Pending) false true rd fr 1 1 1)
                     S_idle W_exit)
  | Ph_done sd rd fr ex :
      pend rd = [CbWakeup] →
      left_at fr ex →
      phase (MkState (MkHeap ex sd 0 (Some true) (Some (resolve (verdict ex))) false
                             false rd fr 1 1 1)
                     S_idle W_exit)
  | Ph_back sd rd fr ex c :
      pend rd = [] →
      left_at fr ex →
      (ex = true ∧ (c = C_await Leaving A_end ∨ c = C_after)) ∨
        (ex = false ∧ c = C_thrown (RuntimeError await_in_worker_msg)) →
      phase (MkState (MkHeap ex sd 0 (Some true) (Some (resolve (verdict ex))) false
                             false rd fr 1 1 1)
                     (S_coro c) W_exit).

(** The loop thread is still inside the entering await, or inside the task
    step that takes the yielded future. *)
Definition loop_entering (s : state) : bool :=
  match st_loop s with
  | S_coro C_aenter | S_coro (C_await Entering _) | S_task_step _ => true
  | _ => false
  end.

(** The worker has come back from [event.wait()]. *)
Definition worker_past_wait (s : state) : bool :=
  match st_worker s with
  | W_idle | W_wait => false
  | _ => true
  end.

(** The task has recorded the suspension and the loop thread is back in
    the run loop: the future is the thing the task waits on. *)
Definition parked (s : state) : Prop :=
  st_loop s = S_idle ∧ h_waiter (st_heap s) = true ∧
  h_frame (st_heap s) = C_await Entering A_end ∧
  h_future (st_heap s) = Some Pending.

(** ** Concrete callables, stores and runs *)

(** [def floordiv(a, b): return a // b]. *)
Definition floordiv : callable :=
  Callable "floordiv"
    (λ args _,
       match args with
       | [VInt a; VInt b] =>
           if (b =? 0)%Z then Raised (ZeroDivisionError "integer division or modulo by zero")
           else Returned (VInt (a / b))
       | _ => Raised (OtherError "TypeError" "unsupported operand")
       end)
    false.

(** [def greet(name, *, greeting)]: a callable that reads its keywords. *)
Definition greet : callable :=
  Callable "greet"
    (λ args kwargs,
       match args, kwargs !! "greeting" with
       | [VStr n], Some (VStr g) => Returned (VStr (g +:+ " " +:+ n))
       | _, _ => Raised (OtherError "TypeError" "bad arguments")
       end)
    false.

(** The keywords of [call_in_executor(greet, 'world', executor=pool3,
    greeting='hello')]. *)
Definition greet_keywords : gmap string value :=
  <["executor" := VExecutor 3]> (<["greeting" := VStr "hello"]> ∅).

(** [async def fetch(): ...], a coroutine function. *)
Definition fetch : callable :=
  Callable "fetch" (λ _ _, Returned VNone) true.

Definition world0 : World := MkWorld ∅ [] [].

(** A store whose executor 0 has been shut down. *)
Definition world_down : World := MkWorld {[0 := MkExecutor true []]} [] [].

(** One complete handoff: the loop thread runs [__await__] up to line 44
    and parks the task, the loop runs [event.set], the worker runs the
    block and comes back at line 33, the loop wakes the task. *)
Definition handoff_run : list action :=
  replicate 11 (OnLoop Go) ++ replicate 10 (OnWorker Go) ++ replicate 3 (OnLoop Go).

Definition handoff_end : state :=
  MkState (MkHeap true false 0 (Some true) (Some (Fulfilled VNone)) false false []
                  (C_await Leaving A_end) 1 1 1)
          (S_coro C_after) W_exit.

(** A run in which the block awaits something while on the worker thread;
    it stops when [coro.send] is about to return to [exec_when_ready]. *)
Definition await_in_block_run : list action :=
  replicate 11 (OnLoop Go) ++ replicate 4 (OnWorker Go).

Definition await_in_block_state : state :=
  MkState (MkHeap false false 0 (Some true) (Some Pending) false true []
                  (C_await Entering A_end) 1 1 1)
          S_idle (W_coro C_body).

(** The task is parked and [event.set] waits behind [k] callbacks of
    other tasks; then the rest of a handoff. *)
Definition parked_state (k : nat) : state :=
  MkState (MkHeap false false 1 (Some false) (Some Pending) false true
                  (replicate k CbOther ++ [CbEventSet]) (C_await Entering A_end) 1 0 1)
          S_idle W_idle.

Definition release_and_run : list action :=
  OnLoop Go :: replicate 10 (OnWorker Go) ++ replicate 3 (OnLoop Go).

(** The heap when the leaving await starts on the worker thread. *)
Definition heap_after_exit : Heap :=
  MkHeap true false 0 (Some true) (Some Pending) false true []
         (C_await Entering A_end) 1 1 1.

(** ** Other ways into the [async with] *)

(** The switcher has been through an [async with] before ([exited] is
    true) and is used for a second one. *)
Definition init_reused (shutdown : bool) (k : nat) : state :=
  MkState (MkHeap true shutdown 0 None None false false (replicate k CbOther)
                  C_aenter 0 0 0)
          (S_coro C_aenter) W_idle.

(** The points of the coroutine that lie on the way through line 33. *)
Definition exited_path (c : coro_pc) : bool :=
  match c with
  | C_aenter | C_body | C_aexit | C_after => true
  | C_await _ (A_test | A_yield | A_end) => true
  | _ => false
  end.

(** Callbacks of other tasks, and plain steps of this task. *)
Definition quiet (cb : callback) : bool :=
  match cb with
  | CbOther | CbStep None => true
  | _ => false
  end.

Definition reused_inv (s : state) : Prop :=
  let h := st_heap s in
  h_exited h = true ∧ h_queued h = 0 ∧ h_event h = None ∧ h_future h = None ∧
  n_events h = 0 ∧ n_sets h = 0 ∧ n_submitted h = 0 ∧
  st_worker s = W_idle ∧
  forallb quiet (h_ready h) = true ∧
  exited_path (h_frame h) = true ∧
  match st_loop s with
  | S_coro c => exited_path c = true
  | S_task_step y => y ≠ YFuture
  | S_idle => True
  end.

(** The message of a PEP 3148 executor that has been shut down. *)
Definition shutdown_msg : string := "cannot schedule new futures after shutdown".

(** With the executor shut down, the loop thread gets as far as line 41. *)
Definition refusing (s : state) : Prop :=
  let h := st_heap s in
  h_shutdown h = true ∧ h_exited h = false ∧ h_queued h = 0 ∧ h_future h = None ∧
  n_submitted h = 0 ∧ n_sets h = 0 ∧
  st_worker s = W_idle ∧
  (st_loop s = S_coro C_aenter ∨
   st_loop s = S_coro (C_await Entering A_test) ∨
   st_loop s = S_coro (C_await Entering A_find_coro) ∨
   st_loop s = S_coro (C_await Entering A_event) ∨
   st_loop s = S_coro (C_await Entering A_get_loop) ∨
   st_loop s = S_coro (C_await Entering A_submit) ∨
   st_loop s = S_coro (C_thrown (RuntimeError shutdown_msg))).

(** The coroutine has left the [async with]: the code after the block
    runs, or an exception travels up. *)
Definition left_scope (s : state) : bool :=
  match st_loop s with
  | S_coro C_after | S_coro (C_thrown _) => true
  | _ => false
  end.

(** ** How far a handoff is from its end

    Each thread and each queued callback is charged the steps it still
    stands for, with those of what it will set going. *)
Definition cb_weight (cb : callback) : nat :=
  match cb with
  | CbFutureDone _ => 3
  | CbWakeup => 2
  | _ => 1
  end.

Fixpoint ready_weight (q : list callback) : nat :=
  match q with
  | [] => 0
  | cb :: q' => cb_weight cb + ready_weight q'
  end.

Definition loop_weight (pc : loop_pc) : nat :=
  match pc with
  | S_coro C_aenter => 24
  | S_coro (C_await Entering A_test) => 23
  | S_coro (C_await Entering A_find_coro) => 22
  | S_coro (C_await Entering A_event) => 21
  | S_coro (C_await Entering A_get_loop) => 20
  | S_coro (C_await Entering A_submit) => 19
  | S_coro (C_await Entering A_mark) => 5
  | S_coro (C_await Entering A_call_soon) => 4
  | S_coro (C_await Entering A_yield_future) => 2
  | S_coro (C_await Leaving A_end) => 1
  | S_coro _ => 0
  | S_task_step _ => 1
  | S_idle => 0
  end.

Definition worker_weight (pc : worker_pc) : nat :=
  match pc with
  | W_wait => 12
  | W_send => 11
  | W_coro (C_await Entering A_end) => 10
  | W_coro C_body => 9
  | W_coro C_aexit => 8
  | W_coro (C_await Leaving A_test) => 7
  | W_coro (C_await Leaving A_yield) => 6
  | W_check => 5
  | W_finished _ => 4
  | _ => 0
  end.

Definition steps_left (s : state) : nat :=
  loop_weight (st_loop s) + worker_weight (st_worker s) +
  13 * h_queued (st_heap s) + ready_weight (h_ready (st_heap s)).

(** The steps of a run taken by the two threads of the handoff, and those
    taken elsewhere. *)
Fixpoint own_steps (tr : list action) : nat :=
  match tr with
  | [] => 0
  | Elsewhere :: tr' => own_steps tr'
  | _ :: tr' => S (own_steps tr')
  end.

Fixpoint foreign_steps (tr : list action) : nat :=
  match tr with
  | [] => 0
  | Elsewhere :: tr' => S (foreign_steps tr')
  | _ :: tr' => foreign_steps tr'
  end.

(** The run that takes a reused switcher to the block body, and where it
    ends. *)
Definition reused_body_run (k : nat) : list action :=
  replicate 4 (OnLoop Go) ++ replicate k (OnLoop Go) ++ replicate 2 (OnLoop Go).

Definition reused_body_state (down : bool) : state :=
  MkState (MkHeap true down 0 None None false false [] (C_await Entering A_end) 0 0 0)
          (S_coro C_body) W_idle.

(** The worker is about to run [__aexit__]. *)
Definition at_aexit_state : state :=
  MkState (MkHeap false false 0 (Some true) (Some Pending) false true []
                  (C_await Entering A_end) 1 1 1)
          S_idle (W_coro C_aexit).

(** ** Theorems *)

Lemma pend_app q1 q2 : pend (q1 ++ q2) = pend q1 ++ pend q2.
Proof.
  induction q1 as [|cb q1 IH]; [done|].
  destruct cb; simpl; by rewrite ?IH.
Qed.

Lemma pend_replicate_other k : pend (replicate k CbOther) = [].
Proof. induction k; simpl; auto. Qed.

Lemma phase_init sd k : phase (init sd k).
Proof. apply Ph_start; [apply pend_replicate_other | by left]. Qed.

Ltac phase_side :=
  unfold not_started, left_at, verdict in *; simpl in *;
  rewrite ?pend_app; simpl;
  repeat match goal with H : pend _ = _ |- _ => rewrite H end;
  simpl; intuition (try congruence; eauto).

Ltac phase_close :=
  first
    [ eapply Ph_start; solve [phase_side]
    | eapply Ph_event; solve [phase_side]
    | eapply Ph_refused; solve [phase_side]
    | eapply Ph_submitted; solve [phase_side]
    | eapply Ph_scheduled; solve [phase_side]
    | eapply Ph_parked; solve [phase_side]
    | eapply Ph_released; solve [phase_side]
    | eapply Ph_on_worker; solve [phase_side]
    | eapply Ph_returned; solve [phase_side]
    | eapply Ph_posted; solve [phase_side]
    | eapply Ph_done; solve [phase_side]
    | eapply Ph_back; solve [phase_side] ].

Lemma phase_step a s s' : phase s → step a s = Some s' → phase s'.
Proof.
  intros Hph Hstep.
  destruct Hph; unfold not_started, left_at in *;
    destruct a as [[]|[]|]; simpl in Hstep;
    repeat match goal with
           | H : _ ∨ _ |- _ => destruct H
           | H : _ ∧ _ |- _ => destruct H
           end; subst; simpl in Hstep;
    try discriminate.
  all: try (injection Hstep as <-; phase_close).
  all: try (destruct sd; simpl in Hstep; injection Hstep as <-; phase_close).
  all: unfold loop_step in Hstep; simpl in Hstep;
    destruct rd as [|[] rd]; simpl in *; simplify_eq;
    unfold verdict in *; simpl in *; simplify_eq; phase_close.
Qed.

Lemma phase_exec tr : ∀ s s', phase s → exec tr s = Some s' → phase s'.
Proof.
  induction tr as [|a tr IH]; simpl; intros s s' Hph Hex.
  - by simplify_eq.
  - destruct (step a s) as [s1|] eqn:Hs; [|done].
    eapply IH; [|exact Hex]. eapply phase_step; eauto.
Qed.

Lemma reachable_phase sd k tr s : exec tr (init sd k) = Some s → phase s.
Proof. apply phase_exec, phase_init. Qed.

(** ** The decorator and [call_in_executor] *)

Lemma partial_call_bound func args kwargs :
  partial_call (Partial func args kwargs) [] ∅ = c_body func args kwargs.
Proof.
  unfold partial_call; simpl.
  by rewrite app_nil_r, (left_id_L ∅ (∪)).
Qed.

Lemma pool_insert r ex ps fs cs : pool (MkWorld (<[r := ex]> ps) fs cs) r = ex.
Proof. unfold pool; simpl. by rewrite lookup_insert_eq. Qed.

(** Once the workers have gone through the queue up to its last item, the
    future of that item holds what its callback did. *)
Lemma drain_last r tid pre : ∀ w fut cb,
  ex_queue (pool w r) = pre ++ [(fut, cb)] →
  fut < length (w_futures w) →
  ∃ w', drain r tid (S (length pre)) w = Some w' ∧
        w_futures w' !! fut = Some (resolve (partial_call cb [] ∅)) ∧
        last (w_calls w') =
          Some (CallEvent tid (c_name (p_func cb)) (p_args cb ++ []) (∅ ∪ p_keywords cb)).
Proof.
  induction pre as [|[f0 cb0] pre IH]; intros w fut cb Hq Hlt.
  - simpl. unfold worker_run. rewrite Hq. simpl.
    eexists; split; [reflexivity|]. simpl. split.
    + by apply list_lookup_insert_eq.
    + by rewrite last_snoc.
  - cbn [length drain]. unfold worker_run at 1. rewrite Hq. simpl.
    apply IH.
    + by rewrite pool_insert.
    + simpl. by rewrite length_insert.
Qed.

Lemma submit_accepted r cb w :
  ex_shutdown (pool w r) = false →
  ∃ w', Executor_submit r cb w = (w', Returned (length (w_futures w))) ∧
        w_calls w' = w_calls w ∧
        w_futures w' = w_futures w ++ [Pending] ∧
        ex_queue (pool w' r) = ex_queue (pool w r) ++ [(length (w_futures w), cb)].
Proof.
  intros Hlive. unfold Executor_submit. rewrite Hlive.
  eexists; split; [reflexivity|]. simpl. by rewrite pool_insert.
Qed.

(** What a submission that went through leaves behind: a pending future,
    no call made yet, and a future that holds the callback's outcome once
    the workers reach the item. *)
Lemma submitted_resolves r cb w tid :
  ex_shutdown (pool w r) = false →
  ∃ w' fut, Executor_submit r cb w = (w', Returned fut) ∧
    w_calls w' = w_calls w ∧
    w_futures w' !! fut = Some Pending ∧
    last (ex_queue (pool w' r)) = Some (fut, cb) ∧
    ∃ w'', drain r tid (length (ex_queue (pool w' r))) w' = Some w'' ∧
      w_futures w'' !! fut = Some (resolve (partial_call cb [] ∅)) ∧
      last (w_calls w'') =
        Some (CallEvent tid (c_name (p_func cb)) (p_args cb ++ []) (∅ ∪ p_keywords cb)).
Proof.
  intros Hlive.
  destruct (submit_accepted r cb w Hlive) as (w' & Hsub & Hcalls & Hfut & Hq).
  exists w', (length (w_futures w)). split; [done|]. split; [done|].
  split; [rewrite Hfut; by apply list_lookup_middle|].
  split; [rewrite Hq; by rewrite last_snoc|].
  rewrite Hq, length_app, Nat.add_1_r.
  apply drain_last; [done|].
  rewrite Hfut, length_app. simpl. lia.
Qed.

(** C3. A wrapped function called on a thread where [get_event_loop] fails
    (a worker thread, or any thread without a loop) calls the callable on
    the spot, on that thread, with the arguments it was given, and hands
    back the callable's own result: no future is created, nothing is
    queued, and the result is never a [Deferred]. *)
Theorem wrapper_without_loop_runs_inline self func t args kwargs w e :
  get_event_loop t = Raised e →
  ∃ w', wrapper self func t args kwargs w =
          (w', outcome_map Direct (c_body func args kwargs)) ∧
        w_calls w' = w_calls w ++ [CallEvent (thread_id t) (c_name func) args kwargs] ∧
        w_futures w' = w_futures w ∧
        w_pools w' = w_pools w ∧
        ∀ fut, outcome_map Direct (c_body func args kwargs) ≠ Returned (Deferred fut).
Proof.
  intros Hloop. unfold wrapper. rewrite Hloop.
  unfold get_event_loop in Hloop. destruct (thread_loop t); simplify_eq.
  eexists; split; [reflexivity|]. simpl. repeat split.
  intros fut. by destruct (c_body func args kwargs).
Qed.

Lemma wrapper_without_loop_runs_inline_witness :
  get_event_loop worker_thread = Raised (RuntimeError "There is no current event loop in thread") ∧
  fst (wrapper (__init__ VNone) floordiv worker_thread [VInt 7; VInt 2] ∅ world0)
    = MkWorld ∅ [] [CallEvent 1 "floordiv" [VInt 7; VInt 2] ∅] ∧
  snd (wrapper (__init__ VNone) floordiv worker_thread [VInt 7; VInt 2] ∅ world0)
    = Returned (Direct (VInt 3)).
Proof.
  destruct (wrapper_without_loop_runs_inline (__init__ VNone) floordiv worker_thread
              [VInt 7; VInt 2] ∅ world0 _ eq_refl) as (w' & Hw & Hc & Hf & Hp & _).
  split; [reflexivity|]. rewrite Hw. simpl. split; [|reflexivity].
  destruct w'; simpl in *; subst; reflexivity.
Defined.

(** C4. A wrapped function called on the event loop thread, with the loop
    open and the executor taking work, queues the callable bound with its
    positional and keyword arguments and returns the future at once: the
    future is still pending and the callable has not been called. Once the
    workers reach the item, the call is made on the worker thread and the
    future holds what the direct call of the wrapped function on a thread
    without a loop returns. *)
Theorem wrapper_on_loop_thread_defers self func t loop ex args kwargs w :
  get_event_loop t = Returned loop →
  loop_closed loop = false →
  executor_of loop (executor self) = Some ex →
  ex_shutdown (pool w ex) = false →
  ∃ w' fut,
    wrapper self func t args kwargs w = (w', Returned (Deferred fut)) ∧
    w_calls w' = w_calls w ∧
    future_result w' fut = None ∧
    last (ex_queue (pool w' ex)) = Some (fut, Partial func args kwargs) ∧
    ∀ worker : Thread, get_event_loop worker = Raised (RuntimeError "There is no current event loop in thread") →
      ∃ w'', drain ex (thread_id worker) (length (ex_queue (pool w' ex))) w' = Some w'' ∧
        last (w_calls w'') = Some (CallEvent (thread_id worker) (c_name func) args kwargs) ∧
        outcome_map Direct <$> future_result w'' fut =
          Some (snd (wrapper self func worker args kwargs w)).
Proof.
  intros Hloop Hopen Hex Hlive. unfold wrapper at 1. rewrite Hloop.
  unfold run_in_executor. rewrite Hopen, Hex.
  destruct (submitted_resolves ex (Partial func args kwargs) w 0 Hlive)
    as (w' & fut & Hsub & Hcalls & Hpend & Hlast & _).
  rewrite Hsub. exists w', fut. simpl.
  split; [done|]. split; [done|].
  split; [unfold future_result; by rewrite Hpend|].
  split; [done|].
  intros worker Hnone.
  destruct (submitted_resolves ex (Partial func args kwargs) w (thread_id worker) Hlive)
    as (w1 & fut1 & Hsub1 & _ & _ & _ & w'' & Hdrain & Hres & Hev).
  rewrite Hsub in Hsub1. simplify_eq.
  exists w''. split; [done|].
  rewrite partial_call_bound in Hres. simpl in Hev.
  rewrite app_nil_r, (left_id_L ∅ (∪)) in Hev. split; [done|].
  unfold wrapper. rewrite Hnone. simpl.
  unfold future_result. rewrite Hres.
  by destruct (c_body func args kwargs).
Qed.

Lemma wrapper_on_loop_thread_defers_witness :
  get_event_loop loop_thread = Returned (MkLoop false 0) ∧
  loop_closed (MkLoop false 0) = false ∧
  executor_of (MkLoop false 0) (executor (__init__ VNone)) = Some 0 ∧
  ex_shutdown (pool world0 0) = false ∧
  ∃ w' fut w'',
    wrapper (__init__ VNone) floordiv loop_thread [VInt 7; VInt 2] ∅ world0 =
      (w', Returned (Deferred fut)) ∧
    w_calls w' = [] ∧
    drain 0 1 (length (ex_queue (pool w' 0))) w' = Some w'' ∧
    outcome_map Direct <$> future_result w'' fut = Some (Returned (Direct (VInt 3))).
Proof.
  assert (H1 : get_event_loop loop_thread = Returned (MkLoop false 0)) by reflexivity.
  assert (H2 : loop_closed (MkLoop false 0) = false) by reflexivity.
  assert (H3 : executor_of (MkLoop false 0) (executor (__init__ VNone)) = Some 0)
    by reflexivity.
  assert (H4 : ex_shutdown (pool world0 0) = false) by reflexivity.
  repeat (split; [assumption|]).
  destruct (wrapper_on_loop_thread_defers (__init__ VNone) floordiv loop_thread
              (MkLoop false 0) 0 [VInt 7; VInt 2] ∅ world0 H1 H2 H3 H4)
    as (w' & fut & Hw & Hcalls & _ & _ & Hrun).
  destruct (Hrun worker_thread eq_refl) as (w'' & Hdrain & _ & Hres).
  exists w', fut, w''. split; [exact Hw|]. split; [exact Hcalls|].
  split; [exact Hdrain|exact Hres].
Defined.

(** C5. Decorating a coroutine function fails at decoration time with the
    assertion error of line 63, through [__call__] and through
    [threadpool] alike: no wrapper is handed out, so no call of a wrapped
    function can take place. The [assert] is taken as executed, as it is
    unless the interpreter runs with assertions stripped. *)
Theorem coroutine_function_rejected_at_wrap_time self func :
  c_iscoroutinefunction func = true →
  __call__ self func =
    Raised (AssertionError "Cannot wrap coroutine functions to be run in an executor") ∧
  threadpool (inl func) =
    Raised (AssertionError "Cannot wrap coroutine functions to be run in an executor") ∧
  ∀ f : wrapped, __call__ self func ≠ Returned f.
Proof.
  intros Hco. unfold threadpool, __call__. rewrite Hco. simpl. done.
Qed.

Lemma coroutine_function_rejected_at_wrap_time_witness :
  c_iscoroutinefunction fetch = true ∧
  threadpool (inl fetch) =
    Raised (AssertionError "Cannot wrap coroutine functions to be run in an executor").
Proof.
  split; [reflexivity|].
  exact (proj1 (proj2 (coroutine_function_rejected_at_wrap_time (__init__ VNone) fetch eq_refl))).
Defined.






(** C10. Whenever [call_in_executor] returns a future, the keyword
    [executor] has chosen the executor and is not among the keywords bound
    to the callable: the queued callback holds the positional arguments as
    given and the keywords without [executor], and the call the worker then
    makes receives exactly those. *)
Theorem executor_keyword_not_forwarded func args keywords t w w' fut :
  call_in_executor func args keywords t w = (w', Returned fut) →
  ∃ loop ex,
    get_event_loop t = Returned loop ∧
    executor_of loop (default VNone (keywords !! "executor")) = Some ex ∧
    last (ex_queue (pool w' ex)) =
      Some (fut, Partial func args (delete "executor" keywords)) ∧
    ∀ tid, ∃ w'' ev,
      drain ex tid (length (ex_queue (pool w' ex))) w' = Some w'' ∧
      last (w_calls w'') = Some ev ∧
      ce_thread ev = tid ∧
      ce_func ev = c_name func ∧
      ce_args ev = args ∧
      ce_kwargs ev = delete "executor" keywords ∧
      ce_kwargs ev !! "executor" = None ∧
      (∀ k, k ≠ "executor" → ce_kwargs ev !! k = keywords !! k) ∧
      future_result w'' fut = Some (c_body func args (delete "executor" keywords)).
Proof.
  unfold call_in_executor, call_in_executor_body. intros Hcall.
  destruct (get_event_loop t) as [loop|e] eqn:Hloop; [|done].
  unfold run_in_executor in Hcall.
  destruct (loop_closed loop) eqn:Hopen; [done|].
  destruct (executor_of _ _) as [ex|] eqn:Hex; [|done].
  exists loop, ex. split; [done|]. split; [done|].
  set (cb := Partial func args (delete "executor" keywords)) in *.
  assert (Hlive : ex_shutdown (pool w ex) = false).
  { unfold Executor_submit in Hcall. by destruct (ex_shutdown _). }
  destruct (submitted_resolves ex cb w 0 Hlive)
    as (w1 & fut1 & Hsub & _ & _ & Hlast & _).
  rewrite Hsub in Hcall. simplify_eq. split; [done|].
  intros tid.
  destruct (submitted_resolves ex cb w tid Hlive)
    as (w1 & fut1 & Hsub1 & _ & _ & _ & w'' & Hdrain & Hres & Hev).
  rewrite Hsub in Hsub1. simplify_eq.
  unfold cb in Hres, Hev. rewrite partial_call_bound in Hres. simpl in Hev.
  rewrite app_nil_r, (left_id_L ∅ (∪)) in Hev.
  eexists w'', _. split; [done|]. split; [exact Hev|]. simpl.
  do 4 (split; [done|]).
  split; [by rewrite lookup_delete_eq|].
  split; [intros k Hk; by rewrite lookup_delete_ne|].
  unfold future_result. rewrite Hres. by destruct (c_body _ _ _).
Qed.

Lemma executor_keyword_not_forwarded_witness :
  ∃ w', call_in_executor greet [VStr "world"] greet_keywords loop_thread world0 =
          (w', Returned 0) ∧
  ∃ w'' ev,
    drain 3 1 (length (ex_queue (pool w' 3))) w' = Some w'' ∧
    last (w_calls w'') = Some ev ∧
    ce_kwargs ev = <["greeting" := VStr "hello"]> ∅ ∧
    future_result w'' 0 = Some (Returned (VStr "hello world")).
Proof.
  exists (fst (call_in_executor greet [VStr "world"] greet_keywords loop_thread world0)).
  assert (Hcall : call_in_executor greet [VStr "world"] greet_keywords loop_thread world0 =
            (fst (call_in_executor greet [VStr "world"] greet_keywords loop_thread world0),
             Returned 0)) by reflexivity.
  split; [exact Hcall|].
  destruct (executor_keyword_not_forwarded _ _ _ _ _ _ _ Hcall)
    as (loop & ex & Hloop & Hex & _ & Hrun).
  assert (ex = 3) as -> by (vm_compute in Hex; congruence).
  destruct (Hrun 1) as (w'' & ev & Hdrain & Hev & _ & _ & _ & Hkw & _ & _ & Hres).
  exists w'', ev. split; [exact Hdrain|]. split; [exact Hev|].
  split; [rewrite Hkw; by vm_compute|].
  rewrite Hres. by vm_compute.
Defined.

(** ** The handoff *)

(** [next] and [send] on the generator always come back: with a yield, a
    return or a raise. *)
Lemma await_rank_decreases t a h h' a' :
  __await__ t a h = (h', GNext a') → await_rank a' < await_rank a.
Proof.
  destruct a; simpl; intros H; repeat case_match; simplify_eq; simpl; lia.
Qed.

Lemma gen_run_total fuel : ∀ t a h,
  await_rank a ≤ fuel →
  ∃ h' g, gen_run fuel t a h = Some (h', g) ∧ ∀ a', g ≠ GNext a'.
Proof.
  induction fuel as [|fuel IH]; intros t a h Hr.
  - destruct a; simpl in Hr; lia.
  - simpl. destruct (__await__ t a h) as [h' g] eqn:Hs.
    destruct g as [a'| | |]; [|by eauto..].
    apply IH. apply await_rank_decreases in Hs. lia.
Qed.

Lemma gen_send_total t a h :
  ∃ h' g, gen_send t a h = Some (h', g) ∧ ∀ a', g ≠ GNext a'.
Proof. apply gen_run_total. destruct a; simpl; lia. Qed.

(** A handoff runs to its end whatever else waits in the loop's queue:
    the code after the block runs on the loop thread, the worker is done. *)
Lemma exec_app tr1 tr2 : ∀ s, exec (tr1 ++ tr2) s = exec tr1 s ≫= exec tr2.
Proof.
  induction tr1 as [|a tr1 IH]; intros s; simpl; [done|].
  destruct (step a s); simpl; [apply IH|done].
Qed.

Lemma loop_skips_others k : ∀ ex sd qd ev fu bl wa q fr a b c w,
  exec (replicate k (OnLoop Go))
       (MkState (MkHeap ex sd qd ev fu bl wa (replicate k CbOther ++ q) fr a b c) S_idle w)
  = Some (MkState (MkHeap ex sd qd ev fu bl wa q fr a b c) S_idle w).
Proof.
  induction k as [|k IH]; intros; simpl; [done|]. apply IH.
Qed.

Lemma run_to_parked k :
  exec (replicate 10 (OnLoop Go)) (init false k) = Some (parked_state k).
Proof. reflexivity. Qed.

Lemma run_from_parked :
  exec release_and_run (parked_state 0) = Some handoff_end.
Proof. reflexivity. Qed.

Lemma handoff_completes k :
  exec (replicate 10 (OnLoop Go) ++ replicate k (OnLoop Go) ++ release_and_run)
       (init false k) = Some handoff_end.
Proof.
  rewrite exec_app, run_to_parked. cbn [mbind option_bind].
  rewrite exec_app. unfold parked_state at 1. rewrite loop_skips_others.
  cbn [mbind option_bind]. apply run_from_parked.
Qed.

(** No statement of the coroutine sets the flag of the event. *)
Lemma coro_step_event t m c h h' n :
  coro_step t m c h = Some (h', n) →
  h_event h' = Some true → h_event h = Some true.
Proof.
  destruct c as [|k a| | | |e], m; simpl; intros Hs He; simplify_eq; try done.
  destruct a; simpl in Hs; repeat case_match; simplify_eq; simpl in *; done.
Qed.

(** The flag goes from clear to set in one place only: the loop, between
    two callbacks, running [event.set] from the head of its ready queue. *)
Lemma event_set_only_by_callback a s s' :
  step a s = Some s' →
  h_event (st_heap s') = Some true →
  h_event (st_heap s) ≠ Some true →
  a = OnLoop Go ∧ st_loop s = S_idle ∧ head (h_ready (st_heap s)) = Some CbEventSet.
Proof.
  intros Hstep He' He.
  destruct s as [h l w]. destruct a as [m|m|]; simpl in *.
  - unfold loop_step in Hstep; simpl in Hstep. destruct l as [c|y|].
    + destruct (coro_step loop_thread m c h) as [[h1 [c'|y c']]|] eqn:Hc;
        simplify_eq; simpl in *; exfalso; apply He;
        eapply coro_step_event; eauto.
    + destruct m; simplify_eq. simpl in *. exfalso; apply He.
      destruct y; simpl in *; repeat case_match; simpl in *; done.
    + destruct m; [|done]. destruct (h_ready h) as [|cb q] eqn:Hq; [done|].
      destruct cb as [|o| |[e|]|]; simpl in *; simplify_eq; simpl in *;
        try done; try (exfalso; apply He; repeat case_match; simpl in *; done).
      exfalso; apply He. repeat case_match; simplify_eq; simpl in *; done.
  - exfalso; apply He. unfold worker_step in Hstep; simpl in Hstep.
    destruct w as [| | |c| |o|].
    1-3, 5-7: destruct m; simplify_eq; repeat case_match; simplify_eq; simpl in *; done.
    assert (Hc : (∃ e, c = C_thrown e ∧ m = Go ∧ st_heap s' = h) ∨
                 ∃ h1 n, coro_step worker_thread m c h = Some (h1, n) ∧
                         h_event (st_heap s') = h_event h1).
    { destruct (coro_step worker_thread m c h) as [[h1 [c'|y c']]|] eqn:Hc;
        destruct c, m; simplify_eq; simpl in *; eauto 10. }
    destruct Hc as [(e & -> & -> & Hh)|(h1 & n & Hc & Hh)].
    + congruence.
    + eapply coro_step_event; [exact Hc|congruence].
  - simplify_eq; simpl in *; done.
Qed.





(** C7, as stated, fails: reached with [exited] true, [__await__] does
    not finish at once; it suspends the coroutine at the [yield] of line 33. *)
Lemma suspend_point_after_exit_suspends :
  h_exited heap_after_exit = true ∧
  gen_send worker_thread A_test heap_after_exit =
    Some (heap_after_exit, GYield YNone A_end) ∧
  gen_send worker_thread A_test heap_after_exit ≠ Some (heap_after_exit, GReturn).
Proof. split; [reflexivity|]. split; [reflexivity|]. discriminate. Qed.

(** C7, amended. Reached with [exited] true, on either thread, [__await__]
    yields once, with no value, and finishes when it is resumed; it creates
    no event, submits no work, schedules no callback, and leaves every
    shared object as it was. *)
Theorem suspend_point_after_exit_yields_once t h :
  h_exited h = true →
  gen_send t A_test h = Some (h, GYield YNone A_end) ∧
  gen_send t A_end h = Some (h, GReturn) ∧
  ∀ h' g, gen_send t A_test h = Some (h', g) →
    n_events h' = n_events h ∧ n_submitted h' = n_submitted h ∧
    h_queued h' = h_queued h ∧ h_ready h' = h_ready h ∧ h_event h' = h_event h.
Proof.
  intros Hex. unfold gen_send. simpl. rewrite Hex. simpl.
  split; [done|]. split; [done|]. intros h' g ?. by simplify_eq.
Qed.

Lemma suspend_point_after_exit_yields_once_witness :
  h_exited heap_after_exit = true ∧
  gen_send loop_thread A_test heap_after_exit =
    Some (heap_after_exit, GYield YNone A_end).
Proof.
  split; [reflexivity|].
  exact (proj1 (suspend_point_after_exit_yields_once loop_thread heap_after_exit eq_refl)).
Defined.

(** C8. When the coroutine, running on the worker thread, suspends while
    [exited] is still false, so that [coro.send] returns to
    [exec_when_ready], the worker raises the [RuntimeError] of line 29;
    the error is delivered to the loop, and the future of the handoff fails
    with it. *)
Theorem await_in_worker_fails_loudly s m s1 :
  worker_in_coro s = true →
  step (OnWorker m) s = Some s1 →
  st_worker s1 = W_check →
  h_exited (st_heap s1) = false →
  ∃ s2 s3,
    step (OnWorker Go) s1 = Some s2 ∧
    st_worker s2 = W_finished (Raised (RuntimeError await_in_worker_msg)) ∧
    step (OnWorker Go) s2 = Some s3 ∧
    last (h_ready (st_heap s3)) =
      Some (CbFutureDone (Raised (RuntimeError await_in_worker_msg))) ∧
    ∀ h, h_future (fst (run_callback
                          (CbFutureDone (Raised (RuntimeError await_in_worker_msg))) h))
         = Some (Failed (RuntimeError await_in_worker_msg)).
Proof.
  intros _ _ Hw Hex. destruct s1 as [h l w]; simpl in *; subst.
  unfold worker_step; simpl. rewrite Hex. simpl.
  do 2 eexists. split; [reflexivity|]. split; [reflexivity|].
  split; [reflexivity|]. simpl. split; [by rewrite last_snoc|].
  intros h0. by destruct (h_waiter h0).
Qed.

Lemma await_in_worker_fails_loudly_witness :
  exec await_in_block_run (init false 0) = Some await_in_block_state ∧
  worker_in_coro await_in_block_state = true ∧
  ∃ s1 s2,
    step (OnWorker Await) await_in_block_state = Some s1 ∧
    st_worker s1 = W_check ∧
    h_exited (st_heap s1) = false ∧
    step (OnWorker Go) s1 = Some s2 ∧
    st_worker s2 = W_finished (Raised (RuntimeError await_in_worker_msg)).
Proof.
  split; [reflexivity|]. split; [reflexivity|].
  eexists. 
  destruct (await_in_worker_fails_loudly await_in_block_state Await _
              eq_refl eq_refl eq_refl eq_refl) as (s2 & s3 & H1 & H2 & _).
  exists s2. split; [reflexivity|]. split; [reflexivity|]. split; [reflexivity|].
  split; [exact H1|exact H2].
Defined.

(** ** More on the decorator and [call_in_executor] *)

Lemma pool_insert_ne r r' ex ps fs cs :
  r ≠ r' → pool (MkWorld (<[r := ex]> ps) fs cs) r' = pool (MkWorld ps fs cs) r'.
Proof. intros Hne. unfold pool; simpl. by rewrite lookup_insert_ne. Qed.

(** X1. On a thread that has an event loop, a wrapped function never calls
    the callable itself, whether the submission goes through or not (loop
    closed, no executor, executor shut down): the trace of calls is left
    as it was and the result is never the callable's own. *)
Theorem wrapper_with_loop_never_calls_inline self func t loop args kwargs w :
  get_event_loop t = Returned loop →
  w_calls (fst (wrapper self func t args kwargs w)) = w_calls w ∧
  ∀ v, snd (wrapper self func t args kwargs w) ≠ Returned (Direct v).
Proof.
  intros Hloop. unfold wrapper. rewrite Hloop.
  unfold run_in_executor. destruct (loop_closed loop); [done|].
  destruct (executor_of _ _) as [r|]; [|done].
  unfold Executor_submit. by destruct (ex_shutdown _).
Qed.

Lemma wrapper_with_loop_never_calls_inline_witness :
  get_event_loop loop_thread = Returned (MkLoop false 0) ∧
  w_calls (fst (wrapper (__init__ VNone) floordiv loop_thread [VInt 1; VInt 0] ∅ world_down))
    = [].
Proof.
  split; [reflexivity|].
  exact (proj1 (wrapper_with_loop_never_calls_inline (__init__ VNone) floordiv loop_thread
                  (MkLoop false 0) [VInt 1; VInt 0] ∅ world_down eq_refl)).
Defined.





Lemma drain_add r tid n m : ∀ w,
  drain r tid (n + m) w = drain r tid n w ≫= drain r tid m.
Proof.
  induction n as [|n IH]; intros w; simpl; [done|].
  destruct (worker_run r tid w); simpl; [apply IH|done].
Qed.

(** The workers go through the queue up to some item: its future then
    holds what its callback did, the items behind it are still queued and
    no future has come or gone. *)
Lemma drain_upto r tid pre : ∀ w fut cb post,
  ex_queue (pool w r) = pre ++ (fut, cb) :: post →
  fut < length (w_futures w) →
  ∃ w', drain r tid (S (length pre)) w = Some w' ∧
        w_futures w' !! fut = Some (resolve (partial_call cb [] ∅)) ∧
        ex_queue (pool w' r) = post ∧
        length (w_futures w') = length (w_futures w) ∧
        last (w_calls w') =
          Some (CallEvent tid (c_name (p_func cb)) (p_args cb ++ []) (∅ ∪ p_keywords cb)).
Proof.
  induction pre as [|[f0 cb0] pre IH]; intros w fut cb post Hq Hlt.
  - simpl. unfold worker_run. rewrite Hq. simpl.
    eexists; split; [reflexivity|]. simpl. rewrite pool_insert. simpl.
    split; [by apply list_lookup_insert_eq|]. split; [done|].
    split; [by rewrite length_insert|by rewrite last_snoc].
  - cbn [length drain]. unfold worker_run at 1. rewrite Hq. simpl.
    destruct (IH (MkWorld (<[r:=MkExecutor (ex_shutdown (pool w r)) (pre ++ (fut, cb) :: post)]>
                             (w_pools w))
                          (<[f0:=resolve (partial_call cb0 [] ∅)]> (w_futures w))
                          (w_calls w ++ [CallEvent tid (c_name (p_func cb0)) (p_args cb0 ++ [])
                                           (∅ ∪ p_keywords cb0)]))
                 fut cb post) as (w' & Hd & Hf & Hq' & Hl & Hc).
    + by rewrite pool_insert.
    + simpl. by rewrite length_insert.
    + exists w'. simpl in Hl. rewrite length_insert in Hl. done.
Qed.

Lemma drain_one_frame r tid w fut cb post w' :
  ex_queue (pool w r) = (fut, cb) :: post →
  drain r tid 1 w = Some w' →
  ∀ i, i ≠ fut → w_futures w' !! i = w_futures w !! i.
Proof.
  intros Hq Hd i Hne. simpl in Hd. unfold worker_run in Hd. rewrite Hq in Hd.
  simpl in Hd. simplify_eq. simpl. by rewrite list_lookup_insert_ne.
Qed.

(** What a submission that went through has changed, and what not. *)
Lemma submit_frame r cb w w' fut :
  Executor_submit r cb w = (w', Returned fut) →
  fut = length (w_futures w) ∧
  w_futures w' = w_futures w ++ [Pending] ∧
  w_calls w' = w_calls w ∧
  ex_shutdown (pool w' r) = false ∧
  ex_queue (pool w' r) = ex_queue (pool w r) ++ [(fut, cb)] ∧
  ∀ r', r' ≠ r → pool w' r' = pool w r'.
Proof.
  unfold Executor_submit. destruct (ex_shutdown (pool w r)) eqn:Hs; [done|].
  intros ?; simplify_eq. rewrite pool_insert. simpl. do 5 (split; [done|]).
  intros r' Hne. destruct w. by rewrite pool_insert_ne.
Qed.

(** X4. A function decorated with the bare [threadpool] is queued, when
    called on the loop thread, on the loop's default executor; decorated
    with [threadpool(executor)] it is queued on that executor. Either way
    every other executor is left as it was. *)
Theorem threadpool_decorator_chooses_executor func t loop args kwargs w :
  c_iscoroutinefunction func = false →
  get_event_loop t = Returned loop →
  loop_closed loop = false →
  (ex_shutdown (pool w (loop_default_executor loop)) = false →
   ∃ f w' fut,
     threadpool (inl func) = Returned (Decorated f) ∧
     f t args kwargs w = (w', Returned (Deferred fut)) ∧
     last (ex_queue (pool w' (loop_default_executor loop))) =
       Some (fut, Partial func args kwargs) ∧
     ∀ r, r ≠ loop_default_executor loop → pool w' r = pool w r) ∧
  (∀ r, ex_shutdown (pool w r) = false →
   ∃ sw f w' fut,
     threadpool (inr (VExecutor r)) = Returned (Switcher sw) ∧
     __call__ sw func = Returned f ∧
     f t args kwargs w = (w', Returned (Deferred fut)) ∧
     last (ex_queue (pool w' r)) = Some (fut, Partial func args kwargs) ∧
     ∀ r', r' ≠ r → pool w' r' = pool w r').
Proof.
  intros Hplain Hloop Hopen.
  assert (Hgen : ∀ v r, executor_of loop v = Some r →
            ex_shutdown (pool w r) = false →
            ∃ w' fut,
              wrapper (__init__ v) func t args kwargs w = (w', Returned (Deferred fut)) ∧
              last (ex_queue (pool w' r)) = Some (fut, Partial func args kwargs) ∧
              ∀ r', r' ≠ r → pool w' r' = pool w r').
  { intros v r Hex Hlive. unfold wrapper. rewrite Hloop.
    unfold run_in_executor. rewrite Hopen. simpl. rewrite Hex.
    destruct (submit_accepted r (Partial func args kwargs) w Hlive)
      as (w' & Hsub & _). rewrite Hsub.
    destruct (submit_frame _ _ _ _ _ Hsub) as (_ & _ & _ & _ & Hq & Hfr).
    exists w', (length (w_futures w)). split; [done|].
    split; [rewrite Hq; apply last_snoc|done]. }
  split.
  - intros Hlive. destruct (Hgen VNone _ eq_refl Hlive) as (w' & fut & Hw & Hq & Hfr).
    exists (wrapper (__init__ VNone) func), w', fut.
    unfold threadpool, __call__. rewrite Hplain. done.
  - intros r Hlive. destruct (Hgen (VExecutor r) r eq_refl Hlive) as (w' & fut & Hw & Hq & Hfr).
    exists (__init__ (VExecutor r)), (wrapper (__init__ (VExecutor r)) func), w', fut.
    unfold threadpool, __call__. rewrite Hplain. done.
Qed.

Lemma threadpool_decorator_chooses_executor_witness :
  c_iscoroutinefunction floordiv = false ∧
  get_event_loop loop_thread = Returned (MkLoop false 0) ∧
  ∃ sw f w' fut,
    threadpool (inr (VExecutor 3)) = Returned (Switcher sw) ∧
    __call__ sw floordiv = Returned f ∧
    f loop_thread [VInt 7; VInt 2] ∅ world0 = (w', Returned (Deferred fut)) ∧
    last (ex_queue (pool w' 3)) = Some (fut, Partial floordiv [VInt 7; VInt 2] ∅).
Proof.
  assert (H1 : c_iscoroutinefunction floordiv = false) by reflexivity.
  assert (H2 : get_event_loop loop_thread = Returned (MkLoop false 0)) by reflexivity.
  assert (H3 : loop_closed (MkLoop false 0) = false) by reflexivity.
  assert (H4 : ex_shutdown (pool world0 3) = false) by reflexivity.
  split; [exact H1|]. split; [exact H2|].
  destruct (proj2 (threadpool_decorator_chooses_executor floordiv loop_thread
                     (MkLoop false 0) [VInt 7; VInt 2] ∅ world0 H1 H2 H3) 3 H4)
    as (sw & f & w' & fut & Ha & Hb & Hc & Hd & _).
  exists sw, f, w', fut. split; [exact Ha|]. split; [exact Hb|]. split; [exact Hc|exact Hd].
Defined.

(** X5. Two calls of a wrapped function on the loop thread give two
    different futures; once the workers have gone through the queue, each
    future holds the outcome of its own call, and the queue is empty. *)
Theorem two_calls_two_futures self func t loop ex a1 k1 a2 k2 w :
  get_event_loop t = Returned loop →
  loop_closed loop = false →
  executor_of loop (executor self) = Some ex →
  ex_shutdown (pool w ex) = false →
  ∃ w1 f1 w2 f2,
    wrapper self func t a1 k1 w = (w1, Returned (Deferred f1)) ∧
    wrapper self func t a2 k2 w1 = (w2, Returned (Deferred f2)) ∧
    f1 ≠ f2 ∧
    ∀ tid, ∃ w3,
      drain ex tid (length (ex_queue (pool w2 ex))) w2 = Some w3 ∧
      future_result w3 f1 = Some (c_body func a1 k1) ∧
      future_result w3 f2 = Some (c_body func a2 k2) ∧
      ex_queue (pool w3 ex) = [].
Proof.
  intros Hloop Hopen Hex Hlive.
  destruct (submit_accepted ex (Partial func a1 k1) w Hlive) as (w1 & Hs1 & _).
  destruct (submit_frame _ _ _ _ _ Hs1) as (_ & Hf1 & _ & Hlive1 & Hq1 & _).
  destruct (submit_accepted ex (Partial func a2 k2) w1 Hlive1) as (w2 & Hs2 & _).
  destruct (submit_frame _ _ _ _ _ Hs2) as (_ & Hf2 & _ & _ & Hq2 & _).
  exists w1, (length (w_futures w)), w2, (length (w_futures w1)).
  unfold wrapper. rewrite Hloop. unfold run_in_executor. rewrite Hopen, Hex, Hs1, Hs2.
  do 2 (split; [done|]).
  assert (Hlen1 : length (w_futures w1) = S (length (w_futures w)))
    by (rewrite Hf1, length_app; simpl; lia).
  split; [lia|]. intros tid.
  rewrite Hq1 in Hq2. rewrite <- app_assoc in Hq2. simpl in Hq2.
  destruct (drain_upto ex tid (ex_queue (pool w ex)) w2 _ _ _ Hq2)
    as (w' & Hd & Hr1 & Hq' & Hl' & _).
  { rewrite Hf2, length_app. simpl. lia. }
  assert (Hlt2 : length (w_futures w1) < length (w_futures w'))
    by (rewrite Hl', Hf2, length_app; simpl; lia).
  destruct (drain_upto ex tid [] w' _ _ _ Hq' Hlt2) as (w3 & Hd3 & Hr2 & Hq3 & _ & _).
  exists w3.
  split.
  { rewrite Hq2, length_app. cbn [length].
    replace (length (ex_queue (pool w ex)) + 2) with (S (length (ex_queue (pool w ex))) + 1)
      by lia.
    rewrite drain_add, Hd. exact Hd3. }
  rewrite partial_call_bound in Hr2.
  split; [|split; [unfold future_result; rewrite Hr2; by destruct (c_body func a2 k2)|done]].
  unfold future_result.
  rewrite (drain_one_frame ex tid w' _ _ _ w3 Hq' Hd3) by lia.
  rewrite Hr1, partial_call_bound. by destruct (c_body func a1 k1).
Qed.

Lemma two_calls_two_futures_witness :
  get_event_loop loop_thread = Returned (MkLoop false 0) ∧
  loop_closed (MkLoop false 0) = false ∧
  executor_of (MkLoop false 0) (executor (__init__ VNone)) = Some 0 ∧
  ex_shutdown (pool world0 0) = false ∧
  ∃ w1 f1 w2 f2 w3,
    wrapper (__init__ VNone) floordiv loop_thread [VInt 7; VInt 2] ∅ world0 =
      (w1, Returned (Deferred f1)) ∧
    wrapper (__init__ VNone) floordiv loop_thread [VInt 1; VInt 0] ∅ w1 =
      (w2, Returned (Deferred f2)) ∧
    f1 ≠ f2 ∧
    drain 0 1 (length (ex_queue (pool w2 0))) w2 = Some w3 ∧
    future_result w3 f1 = Some (Returned (VInt 3)) ∧
    future_result w3 f2 =
      Some (Raised (ZeroDivisionError "integer division or modulo by zero")).
Proof.
  assert (H1 : get_event_loop loop_thread = Returned (MkLoop false 0)) by reflexivity.
  assert (H2 : loop_closed (MkLoop false 0) = false) by reflexivity.
  assert (H3 : executor_of (MkLoop false 0) (executor (__init__ VNone)) = Some 0)
    by reflexivity.
  assert (H4 : ex_shutdown (pool world0 0) = false) by reflexivity.
  repeat (split; [assumption|]).
  destruct (two_calls_two_futures (__init__ VNone) floordiv loop_thread (MkLoop false 0) 0
              [VInt 7; VInt 2] ∅ [VInt 1; VInt 0] ∅ world0 H1 H2 H3 H4)
    as (w1 & f1 & w2 & f2 & Ha & Hb & Hne & Hrun).
  destruct (Hrun 1) as (w3 & Hd & Hr1 & Hr2 & _).
  exists w1, f1, w2, f2, w3.
  split; [exact Ha|]. split; [exact Hb|]. split; [exact Hne|].
  split; [exact Hd|]. split; [exact Hr1|exact Hr2].
Defined.

(** ** More on the handoff *)

(** Only [__aexit__] changes [self.exited] inside the coroutine. *)
Lemma coro_step_exited t m c h h' n :
  coro_step t m c h = Some (h', n) →
  h_exited h' = h_exited h ∨ (c = C_aexit ∧ m = Go ∧ h_exited h' = true).
Proof.
  destruct c as [|k a| | | |e], m; simpl; intros Hs; simplify_eq; auto.
  destruct a; simpl in Hs; repeat case_match; simplify_eq; simpl in *; auto.
Qed.

(** No callback of the loop changes [self.exited]. *)
Lemma run_callback_exited cb h :
  h_exited (fst (run_callback cb h)) = h_exited h.
Proof.
  destruct cb as [|o| |[e|]|]; simpl; try done.
  - unfold event_set. by destruct (h_event h) as [[]|].
  - by destruct (h_waiter h).
  - by destruct (h_future h) as [[]|].
Qed.

(** X6. In any state whatever, a step that changes [self.exited] changes
    it from false to true, and it is the step of the thread that runs
    [__aexit__] (line 48): nothing ever resets the flag. *)
Theorem exited_set_only_by_aexit a s s' :
  step a s = Some s' →
  h_exited (st_heap s') ≠ h_exited (st_heap s) →
  h_exited (st_heap s) = false ∧ h_exited (st_heap s') = true ∧
  ((a = OnLoop Go ∧ st_loop s = S_coro C_aexit) ∨
   (a = OnWorker Go ∧ st_worker s = W_coro C_aexit)).
Proof.
  intros Hstep Hne.
  assert (Hcase : h_exited (st_heap s') = true ∧
                  ((a = OnLoop Go ∧ st_loop s = S_coro C_aexit) ∨
                   (a = OnWorker Go ∧ st_worker s = W_coro C_aexit))).
  { destruct s as [h l w]. destruct a as [m|m|]; simpl in *.
    - unfold loop_step in Hstep; simpl in Hstep. destruct l as [c|y|].
      + destruct (coro_step loop_thread m c h) as [[h1 [c'|y c']]|] eqn:Hc;
          simplify_eq; simpl in *;
          destruct (coro_step_exited _ _ _ _ _ _ Hc) as [?|(-> & -> & ?)];
          try congruence; auto.
      + destruct m; simplify_eq. simpl in *. exfalso; apply Hne.
        destruct y; simpl in *; repeat case_match; simpl in *; done.
      + destruct m; [|done]. destruct (h_ready h) as [|cb q] eqn:Hq; [done|].
        exfalso; apply Hne.
        pose proof (run_callback_exited cb (set_ready q h)) as Hcb.
        destruct (run_callback cb (set_ready q h)) as [h' pc].
        simplify_eq; simpl in *; done.
    - unfold worker_step in Hstep; simpl in Hstep.
      destruct w as [| | |c| |o|].
      1-3, 5-7: exfalso; apply Hne; destruct m; simplify_eq;
        repeat case_match; simplify_eq; simpl in *; done.
      assert (Hc : (∃ e, c = C_thrown e ∧ m = Go ∧ st_heap s' = h) ∨
                   ∃ h1 n, coro_step worker_thread m c h = Some (h1, n) ∧
                           h_exited (st_heap s') = h_exited h1).
      { destruct (coro_step worker_thread m c h) as [[h1 [c'|y c']]|] eqn:Hc;
          destruct c, m; simplify_eq; simpl in *; eauto 10. }
      destruct Hc as [(e & -> & -> & Hh)|(h1 & n & Hc & Hh)].
      + congruence.
      + destruct (coro_step_exited _ _ _ _ _ _ Hc) as [?|(-> & -> & ?)];
          [congruence|]. split; [congruence|auto].
    - simplify_eq; simpl in *; done. }
  destruct Hcase as [Ht Hwho]. split; [|done].
  destruct (h_exited (st_heap s)); [congruence|done].
Qed.

Lemma exited_set_only_by_aexit_witness :
  ∃ s', step (OnWorker Go) at_aexit_state = Some s' ∧
        h_exited (st_heap s') = true ∧
        st_worker at_aexit_state = W_coro C_aexit.
Proof.
  eexists. split; [reflexivity|]. split; [reflexivity|].
  destruct (exited_set_only_by_aexit (OnWorker Go) at_aexit_state _ eq_refl)
    as (_ & _ & [[Hl _]|[_ Hw]]).
  - simpl. discriminate.
  - discriminate Hl.
  - exact Hw.
Defined.

Lemma pend_nil_or_head rd cb :
  pend rd = [cb] → ∃ c q, rd = c :: q.
Proof. destruct rd; [done|eauto]. Qed.

Lemma idle_step_enabled h w cb q :
  h_ready h = cb :: q → ∃ s', step (OnLoop Go) (MkState h S_idle w) = Some s'.
Proof.
  intros Hq. simpl. unfold loop_step. simpl. rewrite Hq.
  destruct (run_callback cb (set_ready q h)). eauto.
Qed.



Ltac split_cases :=
  repeat match goal with
         | H : _ ∨ _ |- _ => destruct H
         | H : _ ∧ _ |- _ => destruct H
         end; subst; simpl in *.



Lemma in_pend cb rd : In cb rd → cb ≠ CbOther → In cb (pend rd).
Proof.
  induction rd as [|c rd IH]; simpl; [done|].
  intros [->|Hin] Hne.
  - destruct cb; simpl; auto. done.
  - destruct c; simpl; auto.
Qed.



Lemma invariant_exec (P : state → Prop) :
  (∀ a s s', P s → step a s = Some s' → P s') →
  ∀ tr s s', P s → exec tr s = Some s' → P s'.
Proof.
  intros Hstep tr. induction tr as [|a tr IH]; simpl; intros s s' HP Hex.
  - by simplify_eq.
  - destruct (step a s) as [s1|] eqn:Hs; [|done]. eauto.
Qed.

Lemma forallb_quiet_app q cb :
  forallb quiet q = true → quiet cb = true → forallb quiet (q ++ [cb]) = true.
Proof. intros Hq Hcb. rewrite forallb_app. simpl. by rewrite Hq, Hcb. Qed.

Lemma forallb_quiet_replicate k : forallb quiet (replicate k CbOther) = true.
Proof. induction k; simpl; auto. Qed.

Lemma reused_inv_init down k : reused_inv (init_reused down k).
Proof. unfold reused_inv; simpl. by rewrite forallb_quiet_replicate. Qed.

Lemma reused_inv_step a s s' : reused_inv s → step a s = Some s' → reused_inv s'.
Proof.
  unfold reused_inv. destruct s as [h l w]. simpl.
  intros (Hex & Hq & Hev & Hfu & Hne & Hns & Hnsub & -> & Hrd & Hfr & Hl) Hstep.
  destruct h as [ex sd qd ev fu bl wa rd fr ne ns nsub]. simpl in *. subst.
  destruct a as [m|m|]; simpl in Hstep.
  - unfold loop_step in Hstep; simpl in Hstep. destruct l as [c|y|].
    + destruct c as [|ke a| | | |e]; try done; destruct m; simpl in Hstep;
        try destruct a; simpl in Hstep; simplify_eq; simpl in *; try done;
        by destruct ke.
    + destruct m; [|done]. simplify_eq. simpl.
      destruct y; simpl; try done.
      repeat split; try done. by apply forallb_quiet_app.
    + destruct m; [|done]. destruct rd as [|cb q]; [done|].
      simpl in Hrd. apply andb_prop in Hrd as [Hcb Hrest].
      destruct cb as [|o| |[e|]|]; simpl in *; simplify_eq; done.
  - unfold worker_step in Hstep; simpl in Hstep. by destruct m.
  - simplify_eq. simpl. repeat split; try done. by apply forallb_quiet_app.
Qed.

Lemma reused_reaches_body down k :
  exec (reused_body_run k) (init_reused down k) = Some (reused_body_state down).
Proof.
  unfold reused_body_run. rewrite exec_app.
  replace (exec (replicate 4 (OnLoop Go)) (init_reused down k)) with
    (Some (MkState (MkHeap true down 0 None None false false
                      (replicate k CbOther ++ [CbStep None])
                      (C_await Entering A_end) 0 0 0) S_idle W_idle))
    by reflexivity.
  cbn [mbind option_bind]. rewrite exec_app, loop_skips_others.
  reflexivity.
Qed.

(** X10. A switcher whose [exited] is already true, entered again, hands
    nothing over: in every state such an [async with] can reach, no event
    is created, nothing is submitted, the worker thread has not started
    and no exception has been raised; and the block body is reached on the
    loop thread, after one bare yield to the loop. *)
Theorem reused_switcher_stays_on_loop_thread down k :
  (∀ tr s, exec tr (init_reused down k) = Some s →
     st_worker s = W_idle ∧
     n_submitted (st_heap s) = 0 ∧ n_events (st_heap s) = 0 ∧
     h_future (st_heap s) = None ∧
     (∀ e, st_loop s ≠ S_coro (C_thrown e))) ∧
  ∃ s, exec (reused_body_run k) (init_reused down k) = Some s ∧
       st_loop s = S_coro C_body.
Proof.
  split.
  - intros tr s Hex.
    assert (Hinv : reused_inv s).
    { eapply (invariant_exec reused_inv); eauto using reused_inv_step, reused_inv_init. }
    destruct s as [h l w]. unfold reused_inv in Hinv. simpl in *.
    destruct Hinv as (_ & _ & _ & Hfu & Hne & _ & Hnsub & -> & _ & _ & Hl).
    repeat split; try done. intros e ->. done.
  - exists (reused_body_state down). split; [apply reused_reaches_body|done].
Qed.

Lemma reused_switcher_stays_on_loop_thread_witness :
  exec (reused_body_run 0) (init_reused false 0) = Some (reused_body_state false) ∧
  st_worker (reused_body_state false) = W_idle ∧
  n_submitted (st_heap (reused_body_state false)) = 0.
Proof.
  assert (Hrun : exec (reused_body_run 0) (init_reused false 0) =
                 Some (reused_body_state false)) by reflexivity.
  split; [exact Hrun|].
  destruct (proj1 (reused_switcher_stays_on_loop_thread false 0) _ _ Hrun)
    as (Hw & Hn & _).
  split; [exact Hw|exact Hn].
Defined.

Lemma refusing_init k : refusing (init true k).
Proof. unfold refusing; simpl. repeat split; auto. Qed.

Lemma refusing_step a s s' : refusing s → step a s = Some s' → refusing s'.
Proof.
  unfold refusing. destruct s as [h l w]. simpl.
  intros (Hsd & Hex & Hq & Hfu & Hnsub & Hns & -> & Hl) Hstep.
  destruct h as [ex sd qd ev fu bl wa rd fr ne ns nsub]. simpl in *. subst.
  destruct a as [m|m|]; simpl in Hstep.
  - unfold loop_step in Hstep; simpl in Hstep.
    repeat match goal with H : _ ∨ _ |- _ => destruct H end; subst;
      destruct m; simpl in Hstep; simplify_eq; simpl; repeat split; auto 10.
  - unfold worker_step in Hstep; simpl in Hstep. by destruct m.
  - simplify_eq. simpl. repeat split; auto.
Qed.

(** X11. With an executor that has been shut down, [async with] never gets
    into the block: in every state it can reach, nothing is submitted, no
    future exists, the worker thread has not started, [exited] is false,
    the block body does not run, and the only exception in the coroutine
    is the executor's [RuntimeError]; six steps of the loop thread raise
    it at line 41, and then neither thread has a step left. *)
Theorem shut_down_executor_refuses_block k :
  (∀ tr s, exec tr (init true k) = Some s →
     st_worker s = W_idle ∧ h_exited (st_heap s) = false ∧
     n_submitted (st_heap s) = 0 ∧ h_future (st_heap s) = None ∧
     st_loop s ≠ S_coro C_body ∧
     (∀ e, st_loop s = S_coro (C_thrown e) → e = RuntimeError shutdown_msg)) ∧
  ∃ s, exec (replicate 6 (OnLoop Go)) (init true k) = Some s ∧
       st_loop s = S_coro (C_thrown (RuntimeError shutdown_msg)) ∧
       ∀ a, a ≠ Elsewhere → step a s = None.
Proof.
  split.
  - intros tr s Hex.
    assert (Hinv : refusing s).
    { eapply (invariant_exec refusing); eauto using refusing_step, refusing_init. }
    destruct s as [h l w]. unfold refusing in Hinv. simpl in *.
    destruct Hinv as (_ & Hexi & _ & Hfu & Hnsub & _ & -> & Hl).
    repeat split; try done.
    + intros ->. intuition congruence.
    + intros e ->. intuition congruence.
  - eexists. split; [reflexivity|]. split; [reflexivity|].
    intros [[]|[]|]; done.
Qed.

Lemma shut_down_executor_refuses_block_witness :
  exec (replicate 3 (OnLoop Go)) (init true 0) =
    Some (MkState (MkHeap false true 0 None None false false [] C_aenter 0 0 0)
                  (S_coro (C_await Entering A_event)) W_idle) ∧
  st_worker (MkState (MkHeap false true 0 None None false false [] C_aenter 0 0 0)
                     (S_coro (C_await Entering A_event)) W_idle) = W_idle.
Proof.
  assert (Hrun : exec (replicate 3 (OnLoop Go)) (init true 0) =
    Some (MkState (MkHeap false true 0 None None false false [] C_aenter 0 0 0)
                  (S_coro (C_await Entering A_event)) W_idle)) by reflexivity.
  split; [exact Hrun|].
  exact (proj1 (proj1 (shut_down_executor_refuses_block 0) _ _ Hrun)).
Defined.

Lemma ready_weight_app q1 q2 :
  ready_weight (q1 ++ q2) = ready_weight q1 + ready_weight q2.
Proof. induction q1 as [|cb q1 IH]; simpl; [done|]. rewrite IH. lia. Qed.

Lemma ready_weight_replicate k : ready_weight (replicate k CbOther) = k.
Proof. induction k; simpl; auto. Qed.

Ltac weigh :=
  unfold steps_left; simpl; rewrite ?ready_weight_app; simpl; lia.

Lemma own_step_uses_up a s s' :
  phase s → step a s = Some s' → a ≠ Elsewhere →
  S (steps_left s') ≤ steps_left s.
Proof.
  intros Hph Hstep Hown.
  destruct Hph; unfold not_started, left_at in *;
    destruct a as [[]|[]|]; try done; simpl in Hstep;
    repeat match goal with
           | H : _ ∨ _ |- _ => destruct H
           | H : _ ∧ _ |- _ => destruct H
           end; subst; simpl in Hstep;
    try discriminate.
  all: try (injection Hstep as <-; weigh).
  all: try (destruct sd; simpl in Hstep; injection Hstep as <-; weigh).
  all: unfold loop_step in Hstep; simpl in Hstep;
    destruct rd as [|[] rd]; simpl in *; simplify_eq;
    unfold verdict in *; simpl in *; simplify_eq; weigh.
Qed.

Lemma foreign_step_adds_one s s' :
  step Elsewhere s = Some s' → steps_left s' = S (steps_left s).
Proof. simpl. intros ?; simplify_eq. weigh. Qed.

Lemma steps_bounded tr : ∀ s s',
  phase s → exec tr s = Some s' →
  own_steps tr + steps_left s' ≤ steps_left s + foreign_steps tr.
Proof.
  induction tr as [|a tr IH]; simpl; intros s s' Hph Hex.
  - simplify_eq. lia.
  - destruct (step a s) as [s1|] eqn:Hs; [|done].
    pose proof (phase_step _ _ _ Hph Hs) as Hph1.
    specialize (IH _ _ Hph1 Hex).
    destruct a as [m|m|].
    + pose proof (own_step_uses_up _ _ _ Hph Hs ltac:(done)). lia.
    + pose proof (own_step_uses_up _ _ _ Hph Hs ltac:(done)). lia.
    + pose proof (foreign_step_adds_one _ _ Hs). lia.
Qed.



Lemma own_steps_app tr1 tr2 : own_steps (tr1 ++ tr2) = own_steps tr1 + own_steps tr2.
Proof.
  induction tr1 as [|a tr1 IH]; simpl; [done|]. destruct a; simpl; lia.
Qed.

Lemma foreign_steps_app tr1 tr2 :
  foreign_steps (tr1 ++ tr2) = foreign_steps tr1 + foreign_steps tr2.
Proof.
  induction tr1 as [|a tr1 IH]; simpl; [done|]. destruct a; simpl; lia.
Qed.

Lemma own_steps_loop k : own_steps (replicate k (OnLoop Go)) = k.
Proof. induction k; simpl; auto. Qed.

Lemma foreign_steps_loop k : foreign_steps (replicate k (OnLoop Go)) = 0.
Proof. induction k; simpl; auto. Qed.



